(** * ORC port controller and Neutron tag reconciliation

    A shallow embedding of two pieces of the OpenStack resource controller:

    - package [neutrontags]: [Join] and [ReconcileTags], the convergent
      "replace all tags" primitive;
    - package [port]: the dependency declarations of the port controller
      and its [SetupWithManager].

    Go slices are lists, [k8s.io/utils/set.Set[string]] is a [gset string],
    a nil pointer is [None], a nil [error] is [None]. *)

From stdpp Require Import base strings list gmap sorting.

Open Scope string_scope.
Open Scope list_scope.

Set Warnings "-clear-no-such-hyp".

(** ** Go errors *)

(** [errors.New] values and the wrapper built by [errors.Join]. *)
#[warnings="-register-all"]
Inductive error : Type :=
  | errorString (msg : string)
  | joinError (errs : list error).

(** ** k8s.io/utils/set, instantiated at [string] *)

Module set.

(** [Insert] adds the items one after the other: [s[item] = struct{}{}]. *)
Definition Insert (s : gset string) (items : list string) : gset string :=
  foldl (λ acc item, {[ item ]} ∪ acc) s items.

(** [New] starts from the empty set and inserts the items. *)
Definition New (items : list string) : gset string := Insert ∅ items.

Definition Len (s : gset string) : nat := size s.

Definition Has (s : gset string) (item : string) : bool :=
  bool_decide (item ∈ s).

(** [IsSuperset] ranges over [s2] and answers false at the first item that
    [s] does not have. *)
Definition IsSuperset (s s2 : gset string) : bool :=
  forallb (Has s) (elements s2).

(** [Equal]: same length, and [s] is a superset of [s2]. *)
Definition Equal (s s2 : gset string) : bool :=
  bool_decide (Len s = Len s2) && IsSuperset s s2.

(** [SortedList] collects the keys (in the map's iteration order) and sorts
    them with [<] on strings, which is the bytewise lexicographic order. *)
Definition SortedList (s : gset string) : list string :=
  merge_sort String.le (elements s).

End set.

(** ** progress.ReconcileStatus *)

Module progress.

(** Modelled from the spec: the [progress] package is not part of the
    sources at hand.  ProgressStatus is the result of one reconcile
    attempt; of its variants [ReconcileTags] builds three: the nil status
    ([Done]), [WrapError err] and [NeedsRefresh ()]. *)
Inductive ReconcileStatus : Type :=
  | Done
  | WrapError (err : error)
  | NeedsRefresh.

End progress.

(** ** osclients.NetworkClient *)

Module osclients.

(** [attributestags.ReplaceAllOpts] *)
Record ReplaceAllOpts : Type := { Tags : list string }.

(** The client is an interface; the only method used here is
    [ReplaceAllAttributesTags], which talks to the cloud.  [W] is the state
    of the remote side, threaded explicitly. *)
Record NetworkClient (W : Type) : Type := {
  ReplaceAllAttributesTags :
    string → string → ReplaceAllOpts → W → (list string * option error) * W
}.
Arguments ReplaceAllAttributesTags {W} _ _ _ _ _.

(** One observed invocation of [ReplaceAllAttributesTags], with the error
    it returned. *)
Record ReplaceAllCall : Type := {
  callResourceType : string;
  callResourceID : string;
  callOpts : ReplaceAllOpts;
  callErr : option error
}.

(** A client that delegates to [c] and appends every invocation to a log,
    the way a test double counts calls. *)
Definition recording {W} (c : NetworkClient W)
    : NetworkClient (W * list ReplaceAllCall) :=
  {| ReplaceAllAttributesTags resourceType resourceID opts st :=
       let '(tags, err, w') :=
         ReplaceAllAttributesTags c resourceType resourceID opts st.1 in
       (tags, err,
        (w', st.2 ++ [ {| callResourceType := resourceType;
                          callResourceID := resourceID;
                          callOpts := opts;
                          callErr := err |} ])) |}.

(** A small cloud: it stores the tags of one resource and can be told to
    reject every write with a fixed error. *)
Record Cloud : Type := { cloudTags : list string; cloudFailure : option error }.

Definition cloudClient : NetworkClient Cloud :=
  {| ReplaceAllAttributesTags _ _ opts w :=
       match cloudFailure w with
       | Some e => ([], Some e, w)
       | None =>
           (Tags opts, None,
            {| cloudTags := Tags opts; cloudFailure := None |})
       end |}.

End osclients.

(** ** package neutrontags *)

Module neutrontags.
Import progress osclients.

(** [orcv1alpha1.NeutronTag] is a named string type. *)
Definition NeutronTag : Type := string.

(** [Join] joins a slice of tags into a comma separated list of tags. *)
Fixpoint Join_from (i : nat) (tags : list NeutronTag) (b : string) : string :=
  match tags with
  | [] => b
  | t :: rest =>
      let b := if decide (0 < i) then b +:+ "," else b in
      Join_from (S i) rest (b +:+ t)
  end.

Definition Join (tags : list NeutronTag) : string := Join_from 0 tags "".

(** The reconciler returned by [ReconcileTags].  The ORC object and the
    OpenStack resource passed to the closure are ignored by it, so they are
    left out; the closure's effect on the cloud is the state [W]. *)
Definition ReconcileTags {W} (networkClient : NetworkClient W)
    (resourceType resourceID : string)
    (specTags : list NeutronTag) (observedTags : list string)
    : W → ReconcileStatus * W :=
  λ w,
    let observedTagSet := set.New observedTags in
    let specTagSet :=
      foldl (λ s tag, set.Insert s [tag]) (set.New []) specTags in
    if negb (set.Equal specTagSet observedTagSet) then
      let opts := {| Tags := set.SortedList specTagSet |} in
      let '(_, err, w') :=
        ReplaceAllAttributesTags networkClient resourceType resourceID opts w in
      match err with
      | Some e => (WrapError e, w')
      | None =>
          (* If we updated the tags we need another reconcile to refresh
             the resource status *)
          (NeedsRefresh, w')
      end
    else (Done, w).

End neutrontags.

(** ** errors.Join *)

Module errors.

(** [Join] discards the nil values; it returns nil when every value is nil
    and one error wrapping the others, in order, otherwise. *)
Definition Join (errs : list (option error)) : option error :=
  match omap id errs with
  | [] => None
  | es => Some (joinError es)
  end.

End errors.

(** ** API types read by the port controller *)

Module orcv1alpha1.

(** The object kinds the controller names. *)
Inductive Kind : Type :=
  | PortKind | NetworkKind | SubnetKind | SecurityGroupKind | ProjectKind
  | SecretKind.

Global Instance Kind_eq_dec : EqDecision Kind.
Proof. solve_decision. Defined.

Definition KubernetesNameRef : Type := string.

(** Modelled from the spec: package api/v1alpha1 is missing from the
    sources.  A ManagedObject's Spec is a [Resource] variant (desired fields
    plus named references) or an [Import] variant (a filter that may itself
    reference other objects).  The records keep the fields the extractors
    read, with the types their use implies: a pointer (here an [option])
    where the code compares with nil or dereferences, a plain name where it
    converts with [string(...)]. *)
Record Address : Type := { SubnetRef : KubernetesNameRef }.

Record PortResourceSpec : Type := {
  NetworkRef : KubernetesNameRef;
  Addresses : list Address;
  SecurityGroupRefs : list KubernetesNameRef;
  ProjectRef : option KubernetesNameRef
}.

(** [PortFilter.NetworkRef] and [PortFilter.ProjectRef]. *)
Record PortFilter : Type := {
  FilterNetworkRef : KubernetesNameRef;
  FilterProjectRef : option KubernetesNameRef
}.

Record PortImport : Type := { Filter : option PortFilter }.

Record PortSpec : Type := {
  Import : option PortImport;
  Resource : option PortResourceSpec
}.

Record Port : Type := {
  Namespace : string;
  Name : string;
  Spec : PortSpec
}.

(** Modelled from the spec: what a watch sees of a Target object: its key
    and whether its [Available] condition is True ([false] stands for
    False, Unknown and absent alike). *)
Record Object : Type := {
  objNamespace : string;
  objName : string;
  IsAvailable : bool
}.

End orcv1alpha1.

(** ** Dependency relations *)

Module dependency.
Import orcv1alpha1.

(** Modelled from the spec: package internal/util/dependency is missing
    from the sources.  A DependencyRelation is an immutable descriptor: the
    Target kind, an index name, an extractor from a Source to the Target
    names it references, and optional guard tokens (finalizer name and
    owner identity) when deletion protection is required. *)
Record Dependency : Type := {
  targetKind : Kind;
  indexName : string;
  getDependencyRefs : Port → list string;
  guardTokens : option (string * string)
}.

(** [NewDependency[*PortList, T](indexName, getDependencyRefs)] *)
Definition NewDependency (target : Kind) (indexName : string)
    (getDependencyRefs : Port → list string) : Dependency :=
  {| targetKind := target; indexName := indexName;
     getDependencyRefs := getDependencyRefs; guardTokens := None |}.

(** [NewDeletionGuardDependency[*PortList, T](indexName, getDependencyRefs,
    finalizer, fieldOwner)] *)
Definition NewDeletionGuardDependency (target : Kind) (indexName : string)
    (getDependencyRefs : Port → list string) (finalizer fieldOwner : string)
    : Dependency :=
  {| targetKind := target; indexName := indexName;
     getDependencyRefs := getDependencyRefs;
     guardTokens := Some (finalizer, fieldOwner) |}.

(** Modelled from the spec: the effect of a relation on the finalizer
    tokens of a Target.  A relation with guard tokens adds its finalizer
    (idempotently) when it attaches and drops it when it releases; a
    relation without guard tokens has no token to add or drop. *)
Definition attachGuard (d : Dependency) (finalizers : gset string) : gset string :=
  match guardTokens d with
  | Some (finalizer, _) => {[ finalizer ]} ∪ finalizers
  | None => finalizers
  end.

Definition releaseGuard (d : Dependency) (finalizers : gset string) : gset string :=
  match guardTokens d with
  | Some (finalizer, _) => finalizers ∖ {[ finalizer ]}
  | None => finalizers
  end.

(** (kind, namespace, name) of a pending unit of work. *)
Record ReconcileRequest : Type := {
  reqKind : Kind;
  reqNamespace : string;
  reqName : string
}.

(** Modelled from the spec: the handler of a relation.  On a Target event
    it queries the index and emits one ReconcileRequest per Source whose
    extractor output includes the Target's name. *)
Record EventHandler : Type := { handlerRelation : Dependency }.

Definition references (d : Dependency) (target : Object) (port : Port) : bool :=
  bool_decide (Namespace port = objNamespace target) &&
  bool_decide (objName target ∈ getDependencyRefs d port).

Definition handle (h : EventHandler) (store : list Port) (target : Object)
    : list ReconcileRequest :=
  (λ port, {| reqKind := PortKind; reqNamespace := Namespace port;
              reqName := Name port |})
    <$> filter (λ port, references (handlerRelation h) target port = true) store.

End dependency.

(** ** Predicates and the controller builder *)

Module predicates.
Import orcv1alpha1.

Inductive Predicate : Type := NewBecameAvailable (specimen : Kind).

(** Modelled from the spec: package pkg/predicates is missing from the
    sources.  An update is let through only when the Target's [Available]
    condition goes from not-True to True. *)
Definition Update (p : Predicate) (objectOld objectNew : Object) : bool :=
  match p with
  | NewBecameAvailable _ => negb (IsAvailable objectOld) && IsAvailable objectNew
  end.

End predicates.

Module builder.
Import orcv1alpha1 dependency predicates.

(** One [Watches(object, handler, WithPredicates(...))] entry. *)
Record Watch : Type := {
  watchObject : Kind;
  watchHandler : EventHandler;
  watchPredicates : list Predicate
}.

(** The controller builder: the kind it reconciles and its watches, in
    the order they were added. *)
Record Builder : Type := {
  forObject : option Kind;
  watches : list Watch
}.

Definition NewControllerManagedBy : Builder :=
  {| forObject := None; watches := [] |}.

Definition For (object : Kind) (b : Builder) : Builder :=
  {| forObject := Some object; watches := watches b |}.

Definition Watches (object : Kind) (h : EventHandler) (ps : list Predicate)
    (b : Builder) : Builder :=
  {| forObject := forObject b;
     watches := watches b ++ [ {| watchObject := object; watchHandler := h;
                                  watchPredicates := ps |} ] |}.

(** An update event on an object of kind [k] reaches the handler of every
    watch on [k] whose predicates all accept it. *)
Definition forwards (w : Watch) (k : Kind) (objectOld objectNew : Object) : bool :=
  bool_decide (watchObject w = k) &&
  forallb (λ p, Update p objectOld objectNew) (watchPredicates w).

Definition onUpdate (b : Builder) (store : list Port) (k : Kind)
    (objectOld objectNew : Object) : list ReconcileRequest :=
  w ← watches b;
  if forwards w k objectOld objectNew
  then handle (watchHandler w) store objectNew
  else [].

End builder.

(** ** package port *)

Module port.
Import orcv1alpha1 dependency predicates builder.

Definition controllerName : string := "port".

(** [subnets := make([]string, len(addresses))] followed by
    [for i := range addresses { subnets[i] = string(addresses[i].SubnetRef) }];
    a slot is written only at an index that [items] has. *)
Definition fillRefs {A} (ref : A → string) (items : list A) : list string :=
  foldl (λ refs i,
           match items !! i with
           | Some item => <[ i := ref item ]> refs
           | None => refs
           end)
        (replicate (length items) "") (seq 0 (length items)).

Section Controller.

(** Declared in other files of package port. *)
Variables finalizer externalObjectFieldOwner : string.
Variable credentialsDependency : Dependency.

Definition networkDependency : Dependency :=
  NewDeletionGuardDependency NetworkKind
    "spec.resource.networkRef"
    (λ port,
       let resource := Resource (Spec port) in
       match resource with
       | None => []
       | Some resource => [NetworkRef resource]
       end)
    finalizer externalObjectFieldOwner.

Definition networkImportDependency : Dependency :=
  NewDependency NetworkKind
    "spec.import.filter.networkRef"
    (λ port,
       let resource := Import (Spec port) in
       match resource with
       | None => []
       | Some resource =>
           match Filter resource with
           | None => []
           | Some filter => [FilterNetworkRef filter]
           end
       end).

Definition subnetDependency : Dependency :=
  NewDeletionGuardDependency SubnetKind
    "spec.resource.addresses[].subnetRef"
    (λ port,
       match Resource (Spec port) with
       | None => []
       | Some resource => fillRefs SubnetRef (Addresses resource)
       end)
    finalizer externalObjectFieldOwner.

Definition securityGroupDependency : Dependency :=
  NewDeletionGuardDependency SecurityGroupKind
    "spec.resource.securityGroupRefs"
    (λ port,
       match Resource (Spec port) with
       | None => []
       | Some resource => fillRefs id (SecurityGroupRefs resource)
       end)
    finalizer externalObjectFieldOwner.

Definition projectDependency : Dependency :=
  NewDeletionGuardDependency ProjectKind
    "spec.resource.projectRef"
    (λ port,
       let resource := Resource (Spec port) in
       match resource with
       | None => []
       | Some resource =>
           match ProjectRef resource with
           | None => []
           | Some projectRef => [projectRef]
           end
       end)
    finalizer externalObjectFieldOwner.

Definition projectImportDependency : Dependency :=
  NewDependency ProjectKind
    "spec.import.filter.projectRef"
    (λ port,
       let resource := Import (Spec port) in
       match resource with
       | None => []
       | Some resource =>
           match Filter resource with
           | None => []
           | Some filter =>
               match FilterProjectRef filter with
               | None => []
               | Some projectRef => [projectRef]
               end
           end
       end).

(** The controller-runtime manager and the calls made on it.  Their code
    is outside the package: the manager is an abstract state, and each
    call is a function of that state. *)
Variable Manager : Type.
Variable handlerError : Dependency → option error.
Variable AddToManager : Dependency → Manager → option error * Manager.
Variable AddCredentialsWatch :
  Builder → Dependency → Manager → (option error * Builder) * Manager.
Variable Complete : Builder → Manager → option error * Manager.

(** Modelled from the spec: [WatchEventHandler] of package dependency
    returns the handler of the relation it is called on, or an error;
    when it fails is left to [handlerError]. *)
Definition WatchEventHandler (d : Dependency) : error + EventHandler :=
  match handlerError d with
  | Some err => inl err
  | None => inr {| handlerRelation := d |}
  end.

(** Setup code threads the manager and stops at the first
    [if err != nil { return err }]. *)
Definition Setup (A : Type) : Type := Manager → (error + A) * Manager.

#[local] Instance Setup_ret : MRet Setup := λ A a mgr, (inr a, mgr).
#[local] Instance Setup_bind : MBind Setup := λ A B f m mgr,
  match m mgr with
  | (inl err, mgr') => (inl err, mgr')
  | (inr a, mgr') => f a mgr'
  end.

(** [x, err := f(); if err != nil { return err }] *)
Definition try {A} (r : error + A) : Setup A := λ mgr, (r, mgr).

(** A call whose error is kept as a value for [errors.Join]. *)
Definition call {A} (f : Manager → A * Manager) : Setup A :=
  λ mgr, let '(a, mgr') := f mgr in (inr a, mgr').

(** [if err := ...; err != nil { return err }] *)
Definition check (err : option error) : Setup unit :=
  λ mgr, match err with
         | Some e => (inl e, mgr)
         | None => (inr (), mgr)
         end.

(** The builder chain of [SetupWithManager]: the controller is [For]
    ports and has six [Watches], each with one predicate. *)
Definition portBuilder
    (networkWatchEventHandler networkImportWatchEventHandler
     subnetWatchEventHandler securityGroupWatchEventHandler
     projectWatchEventHandler projectImportWatchEventHandler : EventHandler)
    : Builder :=
  Watches ProjectKind projectImportWatchEventHandler
    [NewBecameAvailable ProjectKind]
  (Watches ProjectKind projectWatchEventHandler
    [NewBecameAvailable ProjectKind]
  (Watches SecurityGroupKind securityGroupWatchEventHandler
    [NewBecameAvailable SecurityGroupKind]
  (Watches SubnetKind subnetWatchEventHandler
    [NewBecameAvailable SubnetKind]
  (Watches NetworkKind networkImportWatchEventHandler
    [NewBecameAvailable NetworkKind]
  (Watches NetworkKind networkWatchEventHandler
    [NewBecameAvailable NetworkKind]
  (For PortKind NewControllerManagedBy)))))).

(** [SetupWithManager] sets up the controller with the Manager. *)
Definition SetupWithManager_ : Setup unit :=
  networkWatchEventHandler ← try (WatchEventHandler networkDependency);
  networkImportWatchEventHandler ← try (WatchEventHandler networkImportDependency);
  subnetWatchEventHandler ← try (WatchEventHandler subnetDependency);
  securityGroupWatchEventHandler ← try (WatchEventHandler securityGroupDependency);
  projectWatchEventHandler ← try (WatchEventHandler projectDependency);
  projectImportWatchEventHandler ← try (WatchEventHandler projectImportDependency);
  let builder :=
    portBuilder networkWatchEventHandler networkImportWatchEventHandler
      subnetWatchEventHandler securityGroupWatchEventHandler
      projectWatchEventHandler projectImportWatchEventHandler in
  e1 ← call (AddToManager networkDependency);
  e2 ← call (AddToManager networkImportDependency);
  e3 ← call (AddToManager subnetDependency);
  e4 ← call (AddToManager securityGroupDependency);
  e5 ← call (AddToManager projectDependency);
  e6 ← call (AddToManager projectImportDependency);
  e7 ← call (AddToManager credentialsDependency);
  '(e8, builder) ← call (AddCredentialsWatch builder credentialsDependency);
  check (errors.Join [e1; e2; e3; e4; e5; e6; e7; e8]);;
  err ← call (Complete builder);
  check err.

(** The Go function returns an [error]. *)
Definition SetupWithManager (mgr : Manager) : option error * Manager :=
  match SetupWithManager_ mgr with
  | (inl err, mgr') => (Some err, mgr')
  | (inr _, mgr') => (None, mgr')
  end.

End Controller.

End port.

(** ** A small manager to run the setup against *)

Module testenv.
Import orcv1alpha1 dependency predicates builder.

(** Modelled from the spec: the manager's field indexer, reduced to the
    index names it holds.  Registering a relation fails when its index
    name is already taken (a duplicate index name) and adds the name
    otherwise. *)
Definition Manager : Type := list string.

Definition AddToManager (d : Dependency) (mgr : Manager) : option error * Manager :=
  if bool_decide (indexName d ∈ mgr)
  then (Some (errorString ("indexer conflict: " +:+ indexName d)), mgr)
  else (None, mgr ++ [indexName d]).

(** The credentials watch adds one watch, on secrets. *)
Definition AddCredentialsWatch (b : Builder) (d : Dependency) (mgr : Manager)
    : (option error * Builder) * Manager :=
  (None, Watches SecretKind {| handlerRelation := d |} [] b, mgr).

Definition Complete (b : Builder) (mgr : Manager) : option error * Manager :=
  (None, mgr).

Definition credentialsDependency : Dependency :=
  NewDependency SecretKind "spec.cloudCredentialsRef.secretName" (λ _, []).

(** Every handler can be built. *)
Definition handlerError (d : Dependency) : option error := None.

(** A manager on which two of the index names are already taken. *)
Definition takenManager : Manager :=
  ["spec.resource.networkRef"; "spec.resource.projectRef"].

Definition finalizer : string := "openstack.k-orc.cloud/port".
Definition externalObjectFieldOwner : string := "openstack.k-orc.cloud/portcontroller".

(** A port with a resource spec: one network, two addresses, two security
    groups, a project. *)
Definition examplePort : Port :=
  {| Namespace := "default"; Name := "port-a";
     Spec := {| Import := None;
                Resource := Some
                  {| NetworkRef := "net-a";
                     Addresses := [ {| SubnetRef := "subnet-a" |};
                                    {| SubnetRef := "subnet-b" |} ];
                     SecurityGroupRefs := ["sg-b"; "sg-a"];
                     ProjectRef := Some "project-a" |} |} |}.

Definition exampleResource : PortResourceSpec :=
  {| NetworkRef := "net-a";
     Addresses := [ {| SubnetRef := "subnet-a" |}; {| SubnetRef := "subnet-b" |} ];
     SecurityGroupRefs := ["sg-b"; "sg-a"];
     ProjectRef := Some "project-a" |}.

(** The builder of the port controller with the handlers of its six
    relations. *)
Definition exampleBuilder : Builder :=
  port.portBuilder
    {| handlerRelation := port.networkDependency finalizer externalObjectFieldOwner |}
    {| handlerRelation := port.networkImportDependency |}
    {| handlerRelation := port.subnetDependency finalizer externalObjectFieldOwner |}
    {| handlerRelation :=
         port.securityGroupDependency finalizer externalObjectFieldOwner |}
    {| handlerRelation := port.projectDependency finalizer externalObjectFieldOwner |}
    {| handlerRelation := port.projectImportDependency |}.

Definition SetupWithManager : Manager → option error * Manager :=
  port.SetupWithManager finalizer externalObjectFieldOwner credentialsDependency
    Manager handlerError AddToManager AddCredentialsWatch Complete.

(** The network "net-a", not yet available and available. *)
Definition netPending : Object :=
  {| objNamespace := "default"; objName := "net-a"; IsAvailable := false |}.
Definition netAvailable : Object :=
  {| objNamespace := "default"; objName := "net-a"; IsAvailable := true |}.

End testenv.

(** ** Splitting at a separator byte *)

Module gostrings.

(** [strings.Split(s, sep)] for a separator of one byte: the pieces of [s]
    between the occurrences of [sep], in order.  A string without the
    separator, the empty string included, gives one piece. *)
Fixpoint Split (sep : Ascii.ascii) (s : string) : list string :=
  match s with
  | EmptyString => [EmptyString]
  | String c rest =>
      if decide (c = sep) then EmptyString :: Split sep rest
      else match Split sep rest with
           | piece :: pieces => String c piece :: pieces
           | [] => [String c EmptyString]
           end
  end.

(** [strings.IndexByte(s, c) >= 0] *)
Fixpoint ContainsByte (c : Ascii.ascii) (s : string) : bool :=
  match s with
  | EmptyString => false
  | String c' rest => bool_decide (c' = c) || ContainsByte c rest
  end.

End gostrings.

(** The separator written by [Join]. *)
Definition comma : Ascii.ascii := Ascii.Ascii false false true true false true false false.

(** The six relations of the port controller, in the order
    [SetupWithManager] handles them. *)
Definition portRelations (finalizer externalObjectFieldOwner : string)
    : list dependency.Dependency :=
  [ port.networkDependency finalizer externalObjectFieldOwner;
    port.networkImportDependency;
    port.subnetDependency finalizer externalObjectFieldOwner;
    port.securityGroupDependency finalizer externalObjectFieldOwner;
    port.projectDependency finalizer externalObjectFieldOwner;
    port.projectImportDependency ].

(** A setup in which the handler of the subnet relation cannot be built. *)
Definition subnetHandlerFails (d : dependency.Dependency) : option error :=
  if bool_decide (dependency.indexName d = "spec.resource.addresses[].subnetRef")
  then Some (errorString "no kind for subnet")
  else None.

(** ** Vocabulary of the statements about tags *)

Section TagVocabulary.
Import progress osclients.

(** Desired and observed tags are the same set: order and duplicates do not
    count. *)
Definition same_tags (specTags observedTags : list string) : Prop :=
  ∀ t, t ∈ specTags ↔ t ∈ observedTags.

(** The status built from the error of the replace call. *)
Definition statusOf (err : option error) : ReconcileStatus :=
  match err with
  | Some e => WrapError e
  | None => NeedsRefresh
  end.

Definition replaceCall (resourceType resourceID : string) (tags : list string)
    (err : option error) : ReplaceAllCall :=
  {| callResourceType := resourceType; callResourceID := resourceID;
     callOpts := {| Tags := tags |}; callErr := err |}.

(** A cloud with the given tags that accepts or rejects writes. *)
Definition cloudWith (tags : list string) (failure : option error) : Cloud :=
  {| cloudTags := tags; cloudFailure := failure |}.

End TagVocabulary.

(** * Properties of the set operations *)

Section SetFacts.
Implicit Types (s : gset string) (items : list string).

Lemma Insert_union s items : set.Insert s items = list_to_set items ∪ s.
Proof.
  unfold set.Insert. revert s.
  induction items as [|item items IH]; intros s; simpl.
  - set_solver.
  - rewrite IH. set_solver.
Qed.

Lemma New_list_to_set items : set.New items = list_to_set items.
Proof. unfold set.New. rewrite Insert_union. set_solver. Qed.

Lemma Insert_each_union s items :
  foldl (λ acc tag, set.Insert acc [tag]) s items = list_to_set items ∪ s.
Proof.
  revert s. induction items as [|item items IH]; intros s; simpl.
  - set_solver.
  - rewrite IH. unfold set.Insert. simpl. set_solver.
Qed.

Lemma IsSuperset_subseteq s s2 : set.IsSuperset s s2 = true ↔ s2 ⊆ s.
Proof.
  unfold set.IsSuperset, set.Has. rewrite forallb_forall. split.
  - intros H x Hx. specialize (H x).
    rewrite bool_decide_eq_true in H. apply H, list_elem_of_In.
    by apply elem_of_elements.
  - intros H x Hx%list_elem_of_In%elem_of_elements.
    rewrite bool_decide_eq_true. auto.
Qed.

Lemma Equal_eq s s2 : set.Equal s s2 = true ↔ s = s2.
Proof.
  unfold set.Equal, set.Len.
  rewrite andb_true_iff, bool_decide_eq_true, IsSuperset_subseteq. split.
  - intros [Hlen Hsub]. symmetry. apply set_subseteq_size_eq; [done|lia].
  - intros ->. done.
Qed.

Lemma list_to_set_same (l1 l2 : list string) :
  list_to_set l1 =@{gset string} list_to_set l2 ↔ (∀ t, t ∈ l1 ↔ t ∈ l2).
Proof.
  split.
  - intros Heq t. rewrite <-!(elem_of_list_to_set (C:=gset string)).
    by rewrite Heq.
  - intros H. apply set_eq. intros t. rewrite !elem_of_list_to_set. apply H.
Qed.

Lemma SortedList_Sorted s : Sorted String.le (set.SortedList s).
Proof. apply Sorted_merge_sort, _. Qed.

Lemma SortedList_NoDup s : NoDup (set.SortedList s).
Proof.
  unfold set.SortedList. rewrite merge_sort_Permutation. apply NoDup_elements.
Qed.

Lemma SortedList_elem_of s t : t ∈ set.SortedList s ↔ t ∈ s.
Proof.
  unfold set.SortedList. rewrite merge_sort_Permutation. apply elem_of_elements.
Qed.

End SetFacts.

(** * Tag reconciliation *)

Section ReconcileTagsFacts.
Import progress osclients neutrontags.

Context {W : Type} (c : NetworkClient W).
Implicit Types (specTags observedTags : list string) (w : W).

Lemma specTagSet_eq specTags :
  foldl (λ s tag, set.Insert s [tag]) (set.New []) specTags
  = list_to_set specTags.
Proof. rewrite Insert_each_union, New_list_to_set. set_solver. Qed.

Lemma drift_true specTags observedTags :
  ¬ same_tags specTags observedTags →
  negb (set.Equal
          (foldl (λ s tag, set.Insert s [tag]) (set.New []) specTags)
          (set.New observedTags)) = true.
Proof.
  intros Hs. rewrite specTagSet_eq, New_list_to_set.
  apply negb_true_iff, not_true_is_false.
  intros E%Equal_eq. exact (Hs (proj1 (list_to_set_same _ _) E)).
Qed.

Lemma drift_false specTags observedTags :
  same_tags specTags observedTags →
  negb (set.Equal
          (foldl (λ s tag, set.Insert s [tag]) (set.New []) specTags)
          (set.New observedTags)) = false.
Proof.
  intros Hs. rewrite specTagSet_eq, New_list_to_set.
  apply negb_false_iff, Equal_eq. exact (proj2 (list_to_set_same _ _) Hs).
Qed.

Lemma ReconcileTags_same resourceType resourceID specTags observedTags :
  same_tags specTags observedTags →
  ∀ {V} (c' : NetworkClient V) (v : V),
    ReconcileTags c' resourceType resourceID specTags observedTags v = (Done, v).
Proof.
  intros Hs V c' v. unfold ReconcileTags.
  by rewrite drift_false.
Qed.

Lemma ReconcileTags_drift resourceType resourceID specTags observedTags :
  ¬ same_tags specTags observedTags →
  ∀ {V} (c' : NetworkClient V) (v : V),
    ReconcileTags c' resourceType resourceID specTags observedTags v =
    let '(_, err, v') :=
      ReplaceAllAttributesTags c' resourceType resourceID
        {| Tags := set.SortedList (list_to_set specTags) |} v in
    (statusOf err, v').
Proof.
  intros Hs V c' v. unfold ReconcileTags.
  rewrite drift_true, specTagSet_eq by done.
  destruct (ReplaceAllAttributesTags _ _ _ _ _) as [[tags [e|]] v']; done.
Qed.

Lemma same_tags_dec specTags observedTags :
  Decision (same_tags specTags observedTags).
Proof.
  destruct (decide (list_to_set specTags =@{gset string} list_to_set observedTags))
    as [H|H]; [left|right].
  - exact (proj1 (list_to_set_same _ _) H).
  - intros Hs. exact (H (proj2 (list_to_set_same _ _) Hs)).
Defined.

Lemma recording_call resourceType resourceID opts w log :
  ReplaceAllAttributesTags (recording c) resourceType resourceID opts (w, log) =
  let '(tags, err, w') :=
    ReplaceAllAttributesTags c resourceType resourceID opts w in
  (tags, err, (w', log ++ [replaceCall resourceType resourceID (Tags opts) err])).
Proof.
  unfold recording; simpl.
  destruct (ReplaceAllAttributesTags c _ _ _ _) as [[tags err] w'].
  by destruct opts.
Qed.

Lemma ReconcileTags_recording_drift resourceType resourceID specTags observedTags w log :
  ¬ same_tags specTags observedTags →
  ∃ err w',
    ReconcileTags (recording c) resourceType resourceID specTags observedTags (w, log)
    = (statusOf err,
       (w', log ++ [replaceCall resourceType resourceID
                      (set.SortedList (list_to_set specTags)) err])).
Proof.
  intros Hs. rewrite ReconcileTags_drift, recording_call by done.
  destruct (ReplaceAllAttributesTags c _ _ _ _) as [[tags err] w'].
  by exists err, w'.
Qed.

(** C1.  When the desired and the observed tags are the same set (order and
    duplicates ignored), the reconciler returns the nil status (Done), the
    cloud is left as it was and the call log does not grow:
    [ReplaceAllAttributesTags] is not invoked. *)
Theorem ReconcileTags_equal_sets_zero_calls
    resourceType resourceID specTags observedTags w log :
  same_tags specTags observedTags →
  ReconcileTags (recording c) resourceType resourceID specTags observedTags (w, log)
  = (Done, (w, log)).
Proof.
  intros Hs. unfold ReconcileTags.
  rewrite specTagSet_eq, New_list_to_set.
  assert (set.Equal (list_to_set specTags) (list_to_set observedTags) = true)
    as ->; [|reflexivity].
  apply Equal_eq. exact (proj2 (list_to_set_same _ _) Hs).
Qed.

(** C2.  When the two sets differ there is one list [sorted], the desired
    tags in increasing order without repetition, such that for every
    reordering of the desired and of the observed list the reconciler
    issues exactly one [ReplaceAllAttributesTags] call, with [sorted] as
    its tags; when that call returns no error the status is
    [NeedsRefresh]. *)
Theorem ReconcileTags_drift_one_sorted_call
    resourceType resourceID specTags observedTags w :
  ¬ same_tags specTags observedTags →
  ∃ sorted,
    Sorted String.le sorted ∧ NoDup sorted ∧
    (∀ t, t ∈ sorted ↔ t ∈ specTags) ∧
    ∀ specTags' observedTags',
      specTags' ≡ₚ specTags → observedTags' ≡ₚ observedTags →
      ∃ status err w',
        ReconcileTags (recording c) resourceType resourceID
          specTags' observedTags' (w, [])
        = (status, (w', [replaceCall resourceType resourceID sorted err]))
        ∧ (err = None → status = NeedsRefresh).
Proof.
  intros Hs. exists (set.SortedList (list_to_set specTags)).
  split; [apply SortedList_Sorted|]. split; [apply SortedList_NoDup|].
  split.
  { intros t. by rewrite SortedList_elem_of, elem_of_list_to_set. }
  intros specTags' observedTags' Hp Ho.
  assert (¬ same_tags specTags' observedTags') as Hs'.
  { intros H. apply Hs. intros t. rewrite <-Hp, <-Ho. apply H. }
  destruct (ReconcileTags_recording_drift resourceType resourceID
              specTags' observedTags' w [] Hs') as (err & w' & ->).
  exists (statusOf err), err, w'. split.
  - replace (list_to_set specTags') with (list_to_set (C:=gset string) specTags);
      [done|].
    apply list_to_set_same. intros t. by rewrite Hp.
  - by intros ->.
Qed.

(** C3.  Two runs in a row.  When the first run has something to write
    (the sets differ), it issues one call; a second run whose observed tags
    are, as a set, the tags that call wrote issues no call and returns the
    nil status, so the log of both runs together is that one call. *)
Theorem ReconcileTags_twice_one_call
    resourceType resourceID specTags observedTags w :
  ¬ same_tags specTags observedTags →
  ∃ status w1 written,
    ReconcileTags (recording c) resourceType resourceID
      specTags observedTags (w, []) = (status, (w1, [written]))
    ∧ ∀ observedTags2,
        same_tags observedTags2 (Tags (callOpts written)) →
        ReconcileTags (recording c) resourceType resourceID
          specTags observedTags2 (w1, [written]) = (Done, (w1, [written])).
Proof.
  intros Hs.
  destruct (ReconcileTags_recording_drift resourceType resourceID
              specTags observedTags w [] Hs) as (err & w1 & Hrun).
  eexists _, w1, _. split; [exact Hrun|].
  intros observedTags2 Ho.
  apply ReconcileTags_same. intros t. rewrite (Ho t). simpl.
  by rewrite SortedList_elem_of, elem_of_list_to_set.
Qed.

(** C10.  When the sets differ the replace call is made, and if it returns
    an error [e] the status is [WrapError e], not [NeedsRefresh].  The
    status is [NeedsRefresh] exactly when the call was made and returned no
    error; it wraps [e] exactly when the call was made and returned [e]; it
    is the nil status exactly when no call was made. *)
Theorem ReconcileTags_status_follows_call
    resourceType resourceID specTags observedTags w :
  let '(status, (_, log)) :=
    ReconcileTags (recording c) resourceType resourceID
      specTags observedTags (w, []) in
  (¬ same_tags specTags observedTags →
     ∃ call, log = [call] ∧
       ∀ e, callErr call = Some e →
            status = WrapError e ∧ status ≠ NeedsRefresh) ∧
  (status = NeedsRefresh ↔ ∃ call, log = [call] ∧ callErr call = None) ∧
  (∀ e, status = WrapError e ↔ ∃ call, log = [call] ∧ callErr call = Some e) ∧
  (status = Done ↔ log = []).
Proof.
  destruct (same_tags_dec specTags observedTags) as [Hs|Hs].
  - rewrite ReconcileTags_same by done.
    split; [done|]. repeat split; try done; intros; naive_solver.
  - destruct (ReconcileTags_recording_drift resourceType resourceID
                specTags observedTags w [] Hs) as (err & w' & ->).
    simpl. split.
    { intros _. eexists. split; [reflexivity|]. simpl. by intros e ->. }
    destruct err as [e'|]; simpl; repeat split; try done;
      try (intros; naive_solver).
Qed.

End ReconcileTagsFacts.

Section ReconcileTagsRuns.
Import progress osclients neutrontags.

Lemma same_tags_ab_ba : same_tags ["a"; "b"] ["b"; "a"; "a"].
Proof. intros t. rewrite !elem_of_cons, !elem_of_nil. tauto. Defined.

Lemma drift_ac_ab : ¬ same_tags ["c"; "a"] ["a"; "b"].
Proof.
  intros H. specialize (H "c"). rewrite !elem_of_cons, !elem_of_nil in H.
  destruct H as [H _]. destruct H as [H|[H|[]]]; [by left|discriminate..].
Defined.

(** Scenario D, with a duplicate thrown in. *)
Lemma ReconcileTags_equal_sets_zero_calls_witness :
  same_tags ["a"; "b"] ["b"; "a"; "a"] ∧
  ReconcileTags (recording cloudClient) "ports" "p-1"
    ["a"; "b"] ["b"; "a"; "a"] (cloudWith ["b"; "a"; "a"] None, [])
  = (Done, (cloudWith ["b"; "a"; "a"] None, [])).
Proof.
  split; [exact same_tags_ab_ba|].
  apply (ReconcileTags_equal_sets_zero_calls cloudClient), same_tags_ab_ba.
Defined.

(** Scenario E. *)
Lemma ReconcileTags_drift_one_sorted_call_witness :
  ¬ same_tags ["c"; "a"] ["a"; "b"] ∧
  ∃ sorted,
    Sorted String.le sorted ∧ NoDup sorted ∧
    (∀ t, t ∈ sorted ↔ t ∈ ["c"; "a"]) ∧
    ∀ specTags' observedTags',
      specTags' ≡ₚ ["c"; "a"] → observedTags' ≡ₚ ["a"; "b"] →
      ∃ status err w',
        ReconcileTags (recording cloudClient) "ports" "p-1"
          specTags' observedTags' (cloudWith ["a"; "b"] None, [])
        = (status, (w', [replaceCall "ports" "p-1" sorted err]))
        ∧ (err = None → status = NeedsRefresh).
Proof.
  split; [exact drift_ac_ab|].
  apply (ReconcileTags_drift_one_sorted_call cloudClient), drift_ac_ab.
Defined.

Lemma ReconcileTags_twice_one_call_witness :
  ¬ same_tags ["c"; "a"] ["a"; "b"] ∧
  ∃ status w1 written,
    ReconcileTags (recording cloudClient) "ports" "p-1"
      ["c"; "a"] ["a"; "b"] (cloudWith ["a"; "b"] None, [])
    = (status, (w1, [written]))
    ∧ ∀ observedTags2,
        same_tags observedTags2 (Tags (callOpts written)) →
        ReconcileTags (recording cloudClient) "ports" "p-1"
          ["c"; "a"] observedTags2 (w1, [written]) = (Done, (w1, [written])).
Proof.
  split; [exact drift_ac_ab|].
  apply (ReconcileTags_twice_one_call cloudClient), drift_ac_ab.
Defined.

(** The two runs of scenario E on the small cloud: the second run reads
    back what the first one wrote. *)
Example scenario_E_twice :
  let '(status1, (cloud1, log1)) :=
    ReconcileTags (recording cloudClient) "ports" "p-1"
      ["c"; "a"] ["a"; "b"] (cloudWith ["a"; "b"] None, []) in
  let '(status2, (cloud2, log2)) :=
    ReconcileTags (recording cloudClient) "ports" "p-1"
      ["c"; "a"] (cloudTags cloud1) (cloud1, log1) in
  status1 = NeedsRefresh ∧ status2 = Done ∧ cloudTags cloud2 = ["a"; "c"] ∧
  log2 = [replaceCall "ports" "p-1" ["a"; "c"] None].
Proof. vm_compute. done. Qed.

(** A rejected write: the error comes back wrapped, and the cloud keeps its
    tags. *)
Example scenario_E_rejected :
  ReconcileTags (recording cloudClient) "ports" "p-1"
    ["c"; "a"] ["a"; "b"] (cloudWith ["a"; "b"] (Some (errorString "409")), [])
  = (WrapError (errorString "409"),
     (cloudWith ["a"; "b"] (Some (errorString "409")),
      [replaceCall "ports" "p-1" ["a"; "c"] (Some (errorString "409"))])).
Proof. vm_compute. done. Qed.

Example Join_abc : Join ["a"; "b"; "c"] = "a,b,c".
Proof. reflexivity. Qed.

End ReconcileTagsRuns.

(** * The port controller *)

Section FillRefs.
Context {A : Type} (ref : A → string).

(** After [n] rounds of the loop the first [n] slots hold the references
    of the first [n] items and the other slots are untouched. *)
Lemma fillRefs_rounds (items : list A) (refs : list string) (n : nat) :
  length refs = length items → (n ≤ length items)%nat →
  foldl (λ refs i,
           match items !! i with
           | Some item => <[ i := ref item ]> refs
           | None => refs
           end) refs (seq 0 n)
  = (ref <$> take n items) ++ drop n refs.
Proof.
  intros Hlen. induction n as [|n IH]; intros Hn.
  - by rewrite take_0, drop_0.
  - rewrite seq_S, foldl_app, IH by lia. simpl.
    destruct (lookup_lt_is_Some_2 items n) as [item Hitem]; [lia|].
    rewrite Hitem, (take_S_r _ _ _ Hitem), fmap_app. simpl.
    destruct (lookup_lt_is_Some_2 refs n) as [old Hold]; [lia|].
    rewrite (drop_S _ _ _ Hold).
    rewrite insert_app_r_alt; rewrite length_fmap, length_take; [|lia].
    replace (n - n `min` length items) with 0 by lia. simpl.
    by rewrite <-app_assoc.
Qed.

Lemma fillRefs_fmap (items : list A) : port.fillRefs ref items = ref <$> items.
Proof.
  unfold port.fillRefs.
  rewrite fillRefs_rounds by (rewrite ?length_replicate; lia).
  rewrite firstn_all, drop_ge by (rewrite length_replicate; lia).
  by rewrite app_nil_r.
Qed.

End FillRefs.

Section Extractors.
Import orcv1alpha1 dependency port.

Variables finalizer externalObjectFieldOwner : string.

Abbreviation networkDependency := (networkDependency finalizer externalObjectFieldOwner).
Abbreviation subnetDependency := (subnetDependency finalizer externalObjectFieldOwner).
Abbreviation securityGroupDependency :=
  (securityGroupDependency finalizer externalObjectFieldOwner).
Abbreviation projectDependency := (projectDependency finalizer externalObjectFieldOwner).

(** A relation whose extractor yields nothing for a port never selects
    that port, whatever the Target. *)
Lemma no_refs_no_request (d : Dependency) (port : Port) (target : Object) :
  getDependencyRefs d port = [] → references d target port = false.
Proof.
  intros H. unfold references. rewrite H, andb_false_iff. right.
  apply bool_decide_eq_false. apply not_elem_of_nil.
Qed.

(** C8.  A port without a resource spec yields no reference under any of
    the four guarded relations, and a port without an import, or whose
    import has no filter, yields none under the two import-filter
    relations; under those relations such a port is selected for no
    Target. *)
Theorem extractors_empty_without_spec (port : Port) :
  (Resource (Spec port) = None →
     ∀ d, d ∈ [networkDependency; subnetDependency;
               securityGroupDependency; projectDependency] →
       getDependencyRefs d port = [] ∧
       ∀ target, references d target port = false) ∧
  (Import (Spec port) = None ∨
   (∃ import, Import (Spec port) = Some import ∧ Filter import = None) →
     ∀ d, d ∈ [networkImportDependency; projectImportDependency] →
       getDependencyRefs d port = [] ∧
       ∀ target, references d target port = false).
Proof.
  split.
  - intros H d Hd.
    assert (getDependencyRefs d port = []) as Hrefs.
    { repeat (apply elem_of_cons in Hd as [->|Hd]);
        [simpl; by rewrite H..|by apply elem_of_nil in Hd]. }
    split; [done|]. intros target. by apply no_refs_no_request.
  - intros Himport d Hd.
    assert (getDependencyRefs d port = []) as Hrefs.
    { repeat (apply elem_of_cons in Hd as [->|Hd]);
        [..|by apply elem_of_nil in Hd];
        destruct Himport as [H|(import & H & Hf)]; simpl; rewrite H;
        [done|by rewrite Hf|done|by rewrite Hf]. }
    split; [done|]. intros target. by apply no_refs_no_request.
Qed.

(** C9.  For a port with a resource spec the subnet extractor returns the
    subnet reference of each address, entry by entry and in order, and the
    security-group extractor returns the security-group references as they
    are listed; both outputs have the length of their input. *)
Theorem extractors_one_ref_per_entry (port : Port) (resource : PortResourceSpec) :
  Resource (Spec port) = Some resource →
  getDependencyRefs subnetDependency port = SubnetRef <$> Addresses resource ∧
  length (getDependencyRefs subnetDependency port) = length (Addresses resource) ∧
  getDependencyRefs securityGroupDependency port = SecurityGroupRefs resource ∧
  length (getDependencyRefs securityGroupDependency port)
    = length (SecurityGroupRefs resource).
Proof.
  intros H. simpl. rewrite H, !fillRefs_fmap, length_fmap, list_fmap_id.
  done.
Qed.

End Extractors.

Lemma extractors_one_ref_per_entry_witness :
  orcv1alpha1.Resource (orcv1alpha1.Spec testenv.examplePort)
    = Some testenv.exampleResource ∧
  dependency.getDependencyRefs
    (port.subnetDependency testenv.finalizer testenv.externalObjectFieldOwner)
    testenv.examplePort = ["subnet-a"; "subnet-b"] ∧
  dependency.getDependencyRefs
    (port.securityGroupDependency testenv.finalizer testenv.externalObjectFieldOwner)
    testenv.examplePort = ["sg-b"; "sg-a"].
Proof.
  split; [reflexivity|].
  destruct (extractors_one_ref_per_entry testenv.finalizer
              testenv.externalObjectFieldOwner testenv.examplePort
              testenv.exampleResource eq_refl) as (Hs & _ & Hg & _).
  split; [exact Hs | exact Hg].
Defined.

Section Setup.
Import orcv1alpha1 dependency predicates builder port.

Variables finalizer externalObjectFieldOwner : string.
Variable credentialsDependency : Dependency.
Variable Manager : Type.
Variable handlerError : Dependency → option error.
Variable AddToManager : Dependency → Manager → option error * Manager.
Variable AddCredentialsWatch :
  Builder → Dependency → Manager → (option error * Builder) * Manager.
Variable Complete : Builder → Manager → option error * Manager.

Abbreviation networkDependency := (networkDependency finalizer externalObjectFieldOwner).
Abbreviation subnetDependency := (subnetDependency finalizer externalObjectFieldOwner).
Abbreviation securityGroupDependency :=
  (securityGroupDependency finalizer externalObjectFieldOwner).
Abbreviation projectDependency := (projectDependency finalizer externalObjectFieldOwner).
Abbreviation WatchEventHandler := (WatchEventHandler handlerError).
Abbreviation SetupWithManager :=
  (SetupWithManager finalizer externalObjectFieldOwner credentialsDependency
     Manager handlerError AddToManager AddCredentialsWatch Complete).

Lemma WatchEventHandler_ok (d : Dependency) :
  handlerError d = None → WatchEventHandler d = inr {| handlerRelation := d |}.
Proof. unfold port.WatchEventHandler. by intros ->. Qed.

Lemma WatchEventHandler_inr (d : Dependency) (h : EventHandler) :
  WatchEventHandler d = inr h → h = {| handlerRelation := d |}.
Proof.
  unfold port.WatchEventHandler. destruct (handlerError d); congruence.
Qed.

(** Runs the registration calls of the goal one after the other, outermost
    first, naming nothing: each call is replaced by its error and the
    manager it leaves. *)
Ltac run_registrations :=
  repeat match goal with
         | |- context [AddToManager ?d ?m] =>
             destruct (AddToManager d m) as [? ?]
         | |- context [AddCredentialsWatch ?b ?d ?m] =>
             destruct (AddCredentialsWatch b d m) as [[? ?] ?]
         end.

(** C4.  Once the six handlers are built, all eight registrations are
    carried out one after the other, each on the manager the previous one
    left, whether or not an earlier one failed; if any of them fails, the
    error returned is the join of all the failures, in call order, and the
    controller is not completed. *)
Theorem SetupWithManager_joins_registration_errors (mgr : Manager) :
  handlerError networkDependency = None →
  handlerError networkImportDependency = None →
  handlerError subnetDependency = None →
  handlerError securityGroupDependency = None →
  handlerError projectDependency = None →
  handlerError projectImportDependency = None →
  let builder :=
    portBuilder {| handlerRelation := networkDependency |}
      {| handlerRelation := networkImportDependency |}
      {| handlerRelation := subnetDependency |}
      {| handlerRelation := securityGroupDependency |}
      {| handlerRelation := projectDependency |}
      {| handlerRelation := projectImportDependency |} in
  let '(e1, m1) := AddToManager networkDependency mgr in
  let '(e2, m2) := AddToManager networkImportDependency m1 in
  let '(e3, m3) := AddToManager subnetDependency m2 in
  let '(e4, m4) := AddToManager securityGroupDependency m3 in
  let '(e5, m5) := AddToManager projectDependency m4 in
  let '(e6, m6) := AddToManager projectImportDependency m5 in
  let '(e7, m7) := AddToManager credentialsDependency m6 in
  let '(e8, _, m8) := AddCredentialsWatch builder credentialsDependency m7 in
  let failures := omap id [e1; e2; e3; e4; e5; e6; e7; e8] in
  failures ≠ [] →
  SetupWithManager mgr = (Some (joinError failures), m8).
Proof.
  intros H1 H2 H3 H4 H5 H6. cbv zeta.
  unfold port.SetupWithManager, SetupWithManager_.
  unfold mbind, Setup_bind, try, call, check.
  rewrite !WatchEventHandler_ok by done.
  run_registrations.
  intros Hne. unfold errors.Join.
  match goal with
  | |- context [omap id ?es] => destruct (omap id es) as [|e failures]
  end; done.
Qed.

(** X15.  When nothing fails the controller is completed on the builder that
    the credentials watch returned. *)
Lemma SetupWithManager_completes (mgr : Manager) :
  handlerError networkDependency = None →
  handlerError networkImportDependency = None →
  handlerError subnetDependency = None →
  handlerError securityGroupDependency = None →
  handlerError projectDependency = None →
  handlerError projectImportDependency = None →
  let builder :=
    portBuilder {| handlerRelation := networkDependency |}
      {| handlerRelation := networkImportDependency |}
      {| handlerRelation := subnetDependency |}
      {| handlerRelation := securityGroupDependency |}
      {| handlerRelation := projectDependency |}
      {| handlerRelation := projectImportDependency |} in
  let '(e1, m1) := AddToManager networkDependency mgr in
  let '(e2, m2) := AddToManager networkImportDependency m1 in
  let '(e3, m3) := AddToManager subnetDependency m2 in
  let '(e4, m4) := AddToManager securityGroupDependency m3 in
  let '(e5, m5) := AddToManager projectDependency m4 in
  let '(e6, m6) := AddToManager projectImportDependency m5 in
  let '(e7, m7) := AddToManager credentialsDependency m6 in
  let '(e8, builder', m8) := AddCredentialsWatch builder credentialsDependency m7 in
  omap id [e1; e2; e3; e4; e5; e6; e7; e8] = [] →
  SetupWithManager mgr = Complete builder' m8.
Proof.
  intros H1 H2 H3 H4 H5 H6. cbv zeta.
  unfold port.SetupWithManager, SetupWithManager_.
  unfold mbind, Setup_bind, try, call, check.
  rewrite !WatchEventHandler_ok by done.
  run_registrations.
  intros Hnil. unfold errors.Join. rewrite Hnil.
  match goal with
  | |- context [Complete ?b ?m] => by destruct (Complete b m) as [[e|] m9]
  end.
Qed.

(** A handler that cannot be built ends the setup at once: its error is
    returned and the manager is untouched. *)
Lemma SetupWithManager_handler_error (mgr : Manager) (err : error) :
  handlerError networkDependency = Some err →
  SetupWithManager mgr = (Some err, mgr).
Proof.
  intros H. unfold port.SetupWithManager, SetupWithManager_.
  unfold mbind, Setup_bind, try, port.WatchEventHandler. by rewrite H.
Qed.

(** The watches of a builder on one kind. *)
Lemma portBuilder_watches (h1 h2 h3 h4 h5 h6 : EventHandler) :
  watches (portBuilder h1 h2 h3 h4 h5 h6) =
  [ {| watchObject := NetworkKind; watchHandler := h1;
       watchPredicates := [NewBecameAvailable NetworkKind] |};
    {| watchObject := NetworkKind; watchHandler := h2;
       watchPredicates := [NewBecameAvailable NetworkKind] |};
    {| watchObject := SubnetKind; watchHandler := h3;
       watchPredicates := [NewBecameAvailable SubnetKind] |};
    {| watchObject := SecurityGroupKind; watchHandler := h4;
       watchPredicates := [NewBecameAvailable SecurityGroupKind] |};
    {| watchObject := ProjectKind; watchHandler := h5;
       watchPredicates := [NewBecameAvailable ProjectKind] |};
    {| watchObject := ProjectKind; watchHandler := h6;
       watchPredicates := [NewBecameAvailable ProjectKind] |} ].
Proof. reflexivity. Qed.

(** C5.  Network and Project are each referenced through two relations.
    The direct one and the import-filter one have different index names;
    the builder holds, for each of the two kinds, exactly two watches, with
    two different handlers, one per relation; and the import-filter
    relation has no guard tokens, so attaching or releasing through it
    leaves the finalizers of any Target as they are, whereas the direct
    relation carries the finalizer and the owner identity. *)
Theorem import_relations_separate_and_unguarded
    (h1 h2 h3 h4 h5 h6 : EventHandler) :
  WatchEventHandler networkDependency = inr h1 →
  WatchEventHandler networkImportDependency = inr h2 →
  WatchEventHandler projectDependency = inr h5 →
  WatchEventHandler projectImportDependency = inr h6 →
  (indexName networkDependency = "spec.resource.networkRef" ∧
   indexName networkImportDependency = "spec.import.filter.networkRef" ∧
   indexName networkDependency ≠ indexName networkImportDependency ∧
   indexName projectDependency = "spec.resource.projectRef" ∧
   indexName projectImportDependency = "spec.import.filter.projectRef" ∧
   indexName projectDependency ≠ indexName projectImportDependency) ∧
  (watchHandler <$>
     filter (λ w, watchObject w = NetworkKind)
       (watches (portBuilder h1 h2 h3 h4 h5 h6)) = [h1; h2] ∧
   handlerRelation h1 = networkDependency ∧
   handlerRelation h2 = networkImportDependency ∧
   h1 ≠ h2 ∧
   watchHandler <$>
     filter (λ w, watchObject w = ProjectKind)
       (watches (portBuilder h1 h2 h3 h4 h5 h6)) = [h5; h6] ∧
   handlerRelation h5 = projectDependency ∧
   handlerRelation h6 = projectImportDependency ∧
   h5 ≠ h6) ∧
  (guardTokens networkImportDependency = None ∧
   guardTokens projectImportDependency = None ∧
   guardTokens networkDependency = Some (finalizer, externalObjectFieldOwner) ∧
   guardTokens projectDependency = Some (finalizer, externalObjectFieldOwner) ∧
   ∀ finalizers : gset string,
     attachGuard networkImportDependency finalizers = finalizers ∧
     releaseGuard networkImportDependency finalizers = finalizers ∧
     attachGuard projectImportDependency finalizers = finalizers ∧
     releaseGuard projectImportDependency finalizers = finalizers).
Proof.
  intros ->%WatchEventHandler_inr ->%WatchEventHandler_inr
         ->%WatchEventHandler_inr ->%WatchEventHandler_inr.
  split; [|split].
  - repeat split; done.
  - repeat split; done.
  - repeat split; done.
Qed.

(** C6.  Every watch of the builder is on one of the four Target kinds
    and carries the became-available predicate of that kind; each of the
    four kinds is watched; and an update of a Target in which [Available]
    does not go from not-True to True enqueues nothing, whatever the ports
    in the store and whatever they reference. *)
Theorem target_updates_forwarded_only_when_became_available
    (h1 h2 h3 h4 h5 h6 : EventHandler) :
  (∀ w, w ∈ watches (portBuilder h1 h2 h3 h4 h5 h6) →
     watchObject w ∈ [NetworkKind; SubnetKind; SecurityGroupKind; ProjectKind] ∧
     watchPredicates w = [NewBecameAvailable (watchObject w)]) ∧
  (∀ k, k ∈ [NetworkKind; SubnetKind; SecurityGroupKind; ProjectKind] →
     ∃ w, w ∈ watches (portBuilder h1 h2 h3 h4 h5 h6) ∧ watchObject w = k) ∧
  (∀ (store : list Port) (k : Kind) (objectOld objectNew : Object),
     ¬ (IsAvailable objectOld = false ∧ IsAvailable objectNew = true) →
     onUpdate (portBuilder h1 h2 h3 h4 h5 h6) store k objectOld objectNew = []).
Proof.
  rewrite portBuilder_watches. split; [|split].
  - intros w Hw. repeat (apply elem_of_cons in Hw as [->|Hw]);
      [simpl; split; [set_solver|done]..|]. by apply elem_of_nil in Hw.
  - intros k Hk.
    repeat (apply elem_of_cons in Hk as [->|Hk]);
      [| | | |by apply elem_of_nil in Hk]; eexists; split.
    + apply list_elem_of_here.
    + reflexivity.
    + do 2 apply list_elem_of_further. apply list_elem_of_here.
    + reflexivity.
    + do 3 apply list_elem_of_further. apply list_elem_of_here.
    + reflexivity.
    + do 4 apply list_elem_of_further. apply list_elem_of_here.
    + reflexivity.
  - intros store k objectOld objectNew Hno.
    assert (negb (IsAvailable objectOld) && IsAvailable objectNew = false) as Hp.
    { destruct (IsAvailable objectOld), (IsAvailable objectNew); try done.
      exfalso. by apply Hno. }
    unfold onUpdate. rewrite portBuilder_watches.
    unfold forwards. simpl. rewrite Hp, !andb_false_r. done.
Qed.

End Setup.

Section SetupRuns.
Import orcv1alpha1 dependency predicates builder.

(** Two index names are taken: both conflicts come back, joined, and the
    five other registrations have been made. *)
Lemma SetupWithManager_joins_registration_errors_witness :
  testenv.SetupWithManager testenv.takenManager =
  (Some (joinError
           [errorString "indexer conflict: spec.resource.networkRef";
            errorString "indexer conflict: spec.resource.projectRef"]),
   ["spec.resource.networkRef"; "spec.resource.projectRef";
    "spec.import.filter.networkRef"; "spec.resource.addresses[].subnetRef";
    "spec.resource.securityGroupRefs"; "spec.import.filter.projectRef";
    "spec.cloudCredentialsRef.secretName"]).
Proof.
  pose proof (SetupWithManager_joins_registration_errors
                testenv.finalizer testenv.externalObjectFieldOwner
                testenv.credentialsDependency testenv.Manager
                testenv.handlerError testenv.AddToManager
                testenv.AddCredentialsWatch testenv.Complete
                testenv.takenManager
                eq_refl eq_refl eq_refl eq_refl eq_refl eq_refl) as H.
  vm_compute in H. apply H. discriminate.
Defined.

Lemma import_relations_separate_and_unguarded_witness :
  watchHandler <$>
    filter (λ w, watchObject w = NetworkKind) (watches testenv.exampleBuilder)
  = [ {| handlerRelation :=
           port.networkDependency testenv.finalizer testenv.externalObjectFieldOwner |};
      {| handlerRelation := port.networkImportDependency |} ] ∧
  guardTokens port.networkImportDependency = None ∧
  guardTokens port.projectImportDependency = None.
Proof.
  destruct (import_relations_separate_and_unguarded
              testenv.finalizer testenv.externalObjectFieldOwner
              testenv.handlerError
              _ _
              {| handlerRelation :=
                   port.subnetDependency testenv.finalizer
                     testenv.externalObjectFieldOwner |}
              {| handlerRelation :=
                   port.securityGroupDependency testenv.finalizer
                     testenv.externalObjectFieldOwner |}
              _ _
              eq_refl eq_refl eq_refl eq_refl)
    as (_ & (Hw & _) & (Hn & Hp & _)).
  split; [exact Hw|]. split; [exact Hn | exact Hp].
Defined.

(** The port of the example references "net-a": when the network becomes
    available the port is enqueued once, by the guarded relation; an update
    that leaves the network available enqueues nothing. *)
Example onUpdate_became_available :
  onUpdate testenv.exampleBuilder [testenv.examplePort] NetworkKind
    testenv.netPending testenv.netAvailable
  = [ {| reqKind := PortKind; reqNamespace := "default"; reqName := "port-a" |} ].
Proof. vm_compute. reflexivity. Qed.

Example onUpdate_still_available :
  onUpdate testenv.exampleBuilder [testenv.examplePort] NetworkKind
    testenv.netAvailable testenv.netAvailable = [].
Proof. vm_compute. reflexivity. Qed.

(** Without a conflict the setup completes. *)
Example SetupWithManager_fresh :
  testenv.SetupWithManager [] =
  (None,
   ["spec.resource.networkRef"; "spec.import.filter.networkRef";
    "spec.resource.addresses[].subnetRef"; "spec.resource.securityGroupRefs";
    "spec.resource.projectRef"; "spec.import.filter.projectRef";
    "spec.cloudCredentialsRef.secretName"]).
Proof. vm_compute. reflexivity. Qed.

End SetupRuns.

(** * Joining tags *)

Section JoinFacts.
Import neutrontags.
Implicit Types (tags : list string) (b s t : string).

Lemma string_app_assoc (s1 s2 s3 : string) :
  (s1 +:+ s2) +:+ s3 = s1 +:+ (s2 +:+ s3).
Proof. induction s1 as [|c s1 IH]; simpl; [done|]. unfold String.app in *. simpl. by f_equal. Qed.

Lemma string_app_nil_r s : s +:+ "" = s.
Proof. induction s as [|c s IH]; [done|]. unfold String.app in *. simpl. by f_equal. Qed.

Lemma string_length_app (s1 s2 : string) :
  String.length (s1 +:+ s2) = String.length s1 + String.length s2.
Proof. induction s1 as [|c s1 IH]; [done|]. unfold String.app in *. simpl. by f_equal. Qed.

(** From the second round on the loop appends a comma and the tag. *)
Lemma Join_from_later tags i b :
  0 < i →
  Join_from i tags b = b +:+ foldr (λ t acc, "," +:+ t +:+ acc) "" tags.
Proof.
  revert i b. induction tags as [|t tags IH]; intros i b Hi; simpl.
  - by rewrite string_app_nil_r.
  - rewrite decide_True by done. rewrite IH by lia.
    by rewrite !string_app_assoc.
Qed.

Lemma Join_cons t tags :
  Join (t :: tags) = t +:+ foldr (λ t acc, "," +:+ t +:+ acc) "" tags.
Proof. unfold Join. simpl. by rewrite Join_from_later by lia. Qed.

Lemma concat_cons t tags :
  String.concat "," (t :: tags)
  = t +:+ foldr (λ t acc, "," +:+ t +:+ acc) "" tags.
Proof.
  revert t. induction tags as [|t' tags IH]; intros t.
  - simpl. by rewrite string_app_nil_r.
  - change (String.concat "," (t :: t' :: tags))
      with (t +:+ "," +:+ String.concat "," (t' :: tags)).
    by rewrite IH.
Qed.

Lemma comma_char : String comma "" = ",".
Proof. reflexivity. Qed.

(** X1.  The index-and-builder loop of [Join] computes the usual
    separator join: the tags in order with one comma between neighbours. *)
Theorem Join_is_concat tags : Join tags = String.concat "," tags.
Proof.
  destruct tags as [|t tags]; [done|].
  by rewrite Join_cons, concat_cons.
Qed.

Lemma separated_length tags :
  String.length (foldr (λ t acc, "," +:+ t +:+ acc) "" tags)
  = sum_list (String.length <$> tags) + length tags.
Proof.
  induction tags as [|t tags IH]; [done|].
  cbn [foldr fmap list_fmap sum_list sum_list_with length].
  rewrite !string_length_app, IH.
  change (String.length ",") with 1. unfold id. lia.
Qed.

(** X2.  The joined string is as long as the tags together plus one byte
    per separator, and there is one separator fewer than there are tags
    (none for the empty list). *)
Theorem Join_length tags :
  String.length (Join tags)
  = sum_list (String.length <$> tags) + (length tags - 1).
Proof.
  destruct tags as [|t tags]; [done|].
  rewrite Join_cons, string_length_app, separated_length.
  cbn [fmap list_fmap sum_list sum_list_with length]. unfold id. lia.
Qed.

Lemma separated_app tags1 tags2 :
  foldr (λ t acc, "," +:+ t +:+ acc) "" (tags1 ++ tags2)
  = foldr (λ t acc, "," +:+ t +:+ acc) "" tags1
    +:+ foldr (λ t acc, "," +:+ t +:+ acc) "" tags2.
Proof.
  induction tags1 as [|t tags1 IH]; [done|]. simpl.
  by rewrite IH, !string_app_assoc.
Qed.

(** X3.  Joining a concatenation of two non-empty lists is joining each
    and putting one comma between the results. *)
Theorem Join_app tags1 tags2 :
  tags1 ≠ [] → tags2 ≠ [] →
  Join (tags1 ++ tags2) = Join tags1 +:+ "," +:+ Join tags2.
Proof.
  destruct tags1 as [|t1 tags1]; [done|].
  destruct tags2 as [|t2 tags2]; [done|]. intros _ _.
  change ((t1 :: tags1) ++ t2 :: tags2) with (t1 :: (tags1 ++ t2 :: tags2)).
  rewrite !Join_cons, separated_app. simpl.
  by rewrite !string_app_assoc.
Qed.

Lemma Split_cons sep s : ∃ piece pieces, gostrings.Split sep s = piece :: pieces.
Proof.
  induction s as [|c s (piece & pieces & IH)]; simpl; [by eauto|].
  case_decide; [by eauto|]. rewrite IH. by eauto.
Qed.

Lemma concat_String c piece pieces :
  String.concat "," (String c piece :: pieces)
  = String c (String.concat "," (piece :: pieces)).
Proof. by destruct pieces. Qed.

(** X4.  Splitting any string at its commas and joining the pieces gives
    the string back. *)
Theorem Join_Split s : Join (gostrings.Split comma s) = s.
Proof.
  assert (∀ tags, Join tags = String.concat "," tags) as ->.
  { intros [|t tags]; [done|]. by rewrite Join_cons, concat_cons. }
  induction s as [|c s IH]; [done|]. simpl.
  destruct (Split_cons comma s) as (piece & pieces & Hs).
  rewrite Hs in IH |- *. case_decide as Hc.
  - subst c. change (String.concat "," ("" :: piece :: pieces))
      with ("" +:+ "," +:+ String.concat "," (piece :: pieces)).
    rewrite IH. reflexivity.
  - by rewrite concat_String, IH.
Qed.

Lemma Split_comma_free t :
  gostrings.ContainsByte comma t = false → gostrings.Split comma t = [t].
Proof.
  induction t as [|c t IH]; [done|]. simpl.
  intros [Hc Ht]%orb_false_iff. apply bool_decide_eq_false in Hc.
  rewrite decide_False by done. by rewrite IH.
Qed.

Lemma Split_before_comma t s :
  gostrings.ContainsByte comma t = false →
  gostrings.Split comma (t +:+ "," +:+ s) = t :: gostrings.Split comma s.
Proof.
  induction t as [|c t IH]; [done|].
  intros [Hc Ht]%orb_false_iff. apply bool_decide_eq_false in Hc.
  change (String c t +:+ "," +:+ s) with (String c (t +:+ "," +:+ s)).
  simpl. rewrite decide_False by done. by rewrite IH.
Qed.

Lemma Split_Join_comma_free tags :
  tags ≠ [] →
  Forall (λ t, gostrings.ContainsByte comma t = false) tags →
  gostrings.Split comma (Join tags) = tags.
Proof.
  intros Hne Hfree.
  assert (Join tags = String.concat "," tags) as ->.
  { destruct tags as [|t tags']; [done|]. by rewrite Join_cons, concat_cons. }
  induction Hfree as [|t tags Ht Hfree IH]; [done|].
  destruct tags as [|t' tags].
  - simpl. by apply Split_comma_free.
  - change (String.concat "," (t :: t' :: tags))
      with (t +:+ "," +:+ String.concat "," (t' :: tags)).
    rewrite Split_before_comma by done. by rewrite IH.
Qed.

(** X5.  For a non-empty list of tags none of which contains a comma,
    splitting the joined string at its commas gives the tags back. *)
Theorem Split_Join tags :
  tags ≠ [] →
  Forall (λ t, gostrings.ContainsByte comma t = false) tags →
  gostrings.Split comma (Join tags) = tags.
Proof. intros Hne Hfree. by apply Split_Join_comma_free. Qed.

(** X6.  On non-empty lists of comma-free tags [Join] is injective: two
    such lists with the same joined string are the same list. *)
Theorem Join_inj tags1 tags2 :
  tags1 ≠ [] → tags2 ≠ [] →
  Forall (λ t, gostrings.ContainsByte comma t = false) tags1 →
  Forall (λ t, gostrings.ContainsByte comma t = false) tags2 →
  Join tags1 = Join tags2 → tags1 = tags2.
Proof.
  intros Hne1 Hne2 Hfree1 Hfree2 Heq.
  rewrite <-(Split_Join_comma_free tags1), <-(Split_Join_comma_free tags2) by done.
  by rewrite Heq.
Qed.

(** The two conditions are needed: the empty list and the list of one
    empty tag join to the same string, and so do a tag with a comma and its
    two halves. *)
Example Join_not_inj :
  Join [] = Join [""] ∧ Join ["a,b"] = Join ["a"; "b"].
Proof. split; reflexivity. Qed.

End JoinFacts.

Lemma Split_Join_witness :
  gostrings.Split comma (neutrontags.Join ["web"; ""; "db"]) = ["web"; ""; "db"].
Proof.
  apply Split_Join; [discriminate|].
  repeat constructor.
Defined.

Lemma Join_app_witness :
  neutrontags.Join (["a"; "b"] ++ ["c"]) = "a,b,c".
Proof.
  rewrite Join_app; [reflexivity|discriminate|discriminate].
Defined.

Lemma Join_inj_witness :
  neutrontags.Join ["a"; "b"] = neutrontags.Join ["a"; "b"] ∧ ["a"; "b"] = ["a"; "b"].
Proof.
  split; [reflexivity|].
  apply Join_inj; [discriminate|discriminate|repeat constructor..|reflexivity].
Defined.

(** * More on tag reconciliation *)

Section ReconcileTagsMore.
Import progress osclients neutrontags.

Context {W : Type} (c : NetworkClient W).
Implicit Types (specTags observedTags : list string) (w : W).

(** X7.  The reconciler reads its two lists only as sets: replacing either
    list by one with the same elements, in any order and with any
    repetitions, changes neither the status nor what happens to the
    cloud. *)
Theorem ReconcileTags_reads_sets
    resourceType resourceID specTags specTags' observedTags observedTags' w :
  same_tags specTags specTags' →
  same_tags observedTags observedTags' →
  ReconcileTags c resourceType resourceID specTags observedTags w
  = ReconcileTags c resourceType resourceID specTags' observedTags' w.
Proof.
  intros Hspec Hobs.
  destruct (same_tags_dec specTags observedTags) as [Hs|Hs].
  - rewrite !ReconcileTags_same; [done| |done].
    intros t. by rewrite <-(Hspec t), <-(Hobs t).
  - rewrite !ReconcileTags_drift; [|intros H; apply Hs|done].
    + by rewrite (proj2 (list_to_set_same specTags specTags') Hspec).
    + intros t. by rewrite (Hspec t), (Hobs t).
Qed.

(** The sorted list of a set is the only duplicate-free increasing list
    with the elements of the set. *)
Lemma SortedList_unique (tags sorted : list string) :
  Sorted String.le sorted → NoDup sorted →
  (∀ t, t ∈ sorted ↔ t ∈ tags) →
  set.SortedList (list_to_set tags) = sorted.
Proof.
  intros Hsorted Hnodup Helems.
  apply (Sorted_unique String.le); [apply SortedList_Sorted|done|].
  apply NoDup_Permutation; [apply SortedList_NoDup|done|].
  intros t. by rewrite SortedList_elem_of, elem_of_list_to_set, Helems.
Qed.

(** X8.  The tags of the replace call are determined by the desired tags
    alone: whichever duplicate-free increasing list has exactly the desired
    tags as elements, that list is the argument of the one call made when
    the sets differ. *)
Theorem ReconcileTags_sends_the_sorted_list
    resourceType resourceID specTags observedTags sorted w :
  ¬ same_tags specTags observedTags →
  Sorted String.le sorted → NoDup sorted →
  (∀ t, t ∈ sorted ↔ t ∈ specTags) →
  ∃ err w',
    ReconcileTags (recording c) resourceType resourceID
      specTags observedTags (w, [])
    = (statusOf err, (w', [replaceCall resourceType resourceID sorted err])).
Proof.
  intros Hs Hsorted Hnodup Helems.
  destruct (ReconcileTags_recording_drift c resourceType resourceID
              specTags observedTags w [] Hs) as (err & w' & ->).
  exists err, w'. by rewrite (SortedList_unique specTags sorted).
Qed.

(** X9.  No desired tags while some tag is observed: the one call made
    carries the empty list, which removes every tag of the resource. *)
Theorem ReconcileTags_clears_tags
    resourceType resourceID observedTags w :
  observedTags ≠ [] →
  ∃ err w',
    ReconcileTags (recording c) resourceType resourceID [] observedTags (w, [])
    = (statusOf err, (w', [replaceCall resourceType resourceID [] err])).
Proof.
  intros Hne.
  assert (¬ same_tags [] observedTags) as Hs.
  { intros Hs. destruct observedTags as [|t tags]; [done|].
    apply (not_elem_of_nil t), Hs. by left. }
  destruct (ReconcileTags_recording_drift c resourceType resourceID
              [] observedTags w [] Hs) as (err & w' & Hrun).
  rewrite (SortedList_unique [] []) in Hrun by (done || constructor).
  exists err, w'. exact Hrun.
Qed.

End ReconcileTagsMore.

Section ReconcileTagsMoreRuns.
Import progress osclients neutrontags.

Lemma same_tags_x_xx : same_tags ["x"] ["x"; "x"].
Proof. intros t. rewrite !elem_of_cons, !elem_of_nil. tauto. Defined.

Lemma ReconcileTags_reads_sets_witness :
  ReconcileTags cloudClient "ports" "p-1" ["a"; "b"] ["x"] (cloudWith ["x"] None)
  = ReconcileTags cloudClient "ports" "p-1" ["b"; "a"; "a"] ["x"; "x"]
      (cloudWith ["x"] None).
Proof.
  apply (ReconcileTags_reads_sets cloudClient).
  - exact same_tags_ab_ba.
  - exact same_tags_x_xx.
Defined.

Lemma elems_ac_cac : ∀ t : string, t ∈ ["a"; "c"] ↔ t ∈ ["c"; "a"; "c"].
Proof. intros t. rewrite !elem_of_cons, !elem_of_nil. tauto. Defined.

Lemma drift_cac_ab : ¬ same_tags ["c"; "a"; "c"] ["a"; "b"].
Proof.
  intros H. specialize (H "c"). rewrite !elem_of_cons, !elem_of_nil in H.
  destruct H as [H _]. destruct H as [H|[H|[]]]; [by left|discriminate..].
Defined.

Lemma ReconcileTags_sends_the_sorted_list_witness :
  ∃ err w',
    ReconcileTags (recording cloudClient) "ports" "p-1"
      ["c"; "a"; "c"] ["a"; "b"] (cloudWith ["a"; "b"] None, [])
    = (statusOf err, (w', [replaceCall "ports" "p-1" ["a"; "c"] err])).
Proof.
  apply (ReconcileTags_sends_the_sorted_list cloudClient).
  - exact drift_cac_ab.
  - compute_done.
  - compute_done.
  - exact elems_ac_cac.
Defined.

Lemma ReconcileTags_clears_tags_witness :
  ∃ err w',
    ReconcileTags (recording cloudClient) "ports" "p-1" [] ["a"]
      (cloudWith ["a"] None, [])
    = (statusOf err, (w', [replaceCall "ports" "p-1" [] err])).
Proof. apply (ReconcileTags_clears_tags cloudClient). discriminate. Defined.

End ReconcileTagsMoreRuns.

(** * More on the setup of the port controller *)

Section SetupMore.
Import orcv1alpha1 dependency predicates builder port.

Variables finalizer externalObjectFieldOwner : string.
Variable credentialsDependency : Dependency.
Variable Manager : Type.
Variable handlerError : Dependency → option error.
Variable AddToManager : Dependency → Manager → option error * Manager.
Variable AddCredentialsWatch :
  Builder → Dependency → Manager → (option error * Builder) * Manager.
Variable Complete : Builder → Manager → option error * Manager.

Abbreviation networkDependency := (networkDependency finalizer externalObjectFieldOwner).
Abbreviation subnetDependency := (subnetDependency finalizer externalObjectFieldOwner).
Abbreviation securityGroupDependency :=
  (securityGroupDependency finalizer externalObjectFieldOwner).
Abbreviation projectDependency := (projectDependency finalizer externalObjectFieldOwner).
Abbreviation relations := (portRelations finalizer externalObjectFieldOwner).
Abbreviation WatchEventHandler := (WatchEventHandler handlerError).
Abbreviation SetupWithManager :=
  (SetupWithManager finalizer externalObjectFieldOwner credentialsDependency
     Manager handlerError AddToManager AddCredentialsWatch Complete).

(** Runs every call of the goal, outermost first, reducing the matches on
    its result before looking for the next one. *)
Ltac run_calls :=
  repeat (match goal with
          | |- context [AddToManager ?d ?m] =>
              destruct (AddToManager d m) as [? ?]
          | |- context [AddCredentialsWatch ?b ?d ?m] =>
              destruct (AddCredentialsWatch b d m) as [[? ?] ?]
          end; cbn beta iota).

(** Closes a goal in which the list of handler errors is said to be empty
    although one handler is known to fail. *)
Ltac handler_failed H :=
  unfold portRelations in H; simpl in H;
  repeat match goal with
         | E : handlerError _ = _ |- _ => rewrite E in H; clear E
         end;
  discriminate H.

(** X10.  If one of the six handlers cannot be built, the setup returns the
    error of the first one that fails, in the order network, network import,
    subnet, security group, project, project import, and the manager is left
    as it was: no relation is registered. *)
Theorem SetupWithManager_stops_at_first_handler_error
    (mgr : Manager) (err : error) (later : list error) :
  omap handlerError relations = err :: later →
  SetupWithManager mgr = (Some err, mgr).
Proof.
  unfold portRelations, port.SetupWithManager, SetupWithManager_.
  unfold mbind, Setup_bind, try, port.WatchEventHandler. simpl.
  destruct (handlerError networkDependency); [by intros [= ->]|].
  destruct (handlerError networkImportDependency); [by intros [= ->]|].
  destruct (handlerError subnetDependency); [by intros [= ->]|].
  destruct (handlerError securityGroupDependency); [by intros [= ->]|].
  destruct (handlerError projectDependency); [by intros [= ->]|].
  destruct (handlerError projectImportDependency); [by intros [= ->]|].
  discriminate.
Qed.

(** X11.  The setup returns a nil error exactly when every step went
    well: the six handlers were built, none of the eight registration calls
    returned an error, and completing the controller returned none. *)
Theorem SetupWithManager_succeeds_iff (mgr : Manager) :
  let builder :=
    portBuilder {| handlerRelation := networkDependency |}
      {| handlerRelation := networkImportDependency |}
      {| handlerRelation := subnetDependency |}
      {| handlerRelation := securityGroupDependency |}
      {| handlerRelation := projectDependency |}
      {| handlerRelation := projectImportDependency |} in
  let '(e1, m1) := AddToManager networkDependency mgr in
  let '(e2, m2) := AddToManager networkImportDependency m1 in
  let '(e3, m3) := AddToManager subnetDependency m2 in
  let '(e4, m4) := AddToManager securityGroupDependency m3 in
  let '(e5, m5) := AddToManager projectDependency m4 in
  let '(e6, m6) := AddToManager projectImportDependency m5 in
  let '(e7, m7) := AddToManager credentialsDependency m6 in
  let '(e8, builder', m8) := AddCredentialsWatch builder credentialsDependency m7 in
  let '(errComplete, m9) := Complete builder' m8 in
  SetupWithManager mgr = (None, m9) ↔
    omap handlerError relations = [] ∧
    omap id [e1; e2; e3; e4; e5; e6; e7; e8] = [] ∧
    errComplete = None.
Proof.
  cbv zeta.
  unfold port.SetupWithManager, SetupWithManager_.
  unfold mbind, Setup_bind, try, call, check, port.WatchEventHandler, errors.Join.
  destruct (handlerError networkDependency) eqn:H1;
    [run_calls; destruct (Complete _ _); split;
       [discriminate|intros [Hh _]; handler_failed Hh] |].
  destruct (handlerError networkImportDependency) eqn:H2;
    [run_calls; destruct (Complete _ _); split;
       [discriminate|intros [Hh _]; handler_failed Hh] |].
  destruct (handlerError subnetDependency) eqn:H3;
    [run_calls; destruct (Complete _ _); split;
       [discriminate|intros [Hh _]; handler_failed Hh] |].
  destruct (handlerError securityGroupDependency) eqn:H4;
    [run_calls; destruct (Complete _ _); split;
       [discriminate|intros [Hh _]; handler_failed Hh] |].
  destruct (handlerError projectDependency) eqn:H5;
    [run_calls; destruct (Complete _ _); split;
       [discriminate|intros [Hh _]; handler_failed Hh] |].
  destruct (handlerError projectImportDependency) eqn:H6;
    [run_calls; destruct (Complete _ _); split;
       [discriminate|intros [Hh _]; handler_failed Hh] |].
  assert (omap handlerError relations = []) as ->.
  { unfold portRelations. simpl. by rewrite H1, H2, H3, H4, H5, H6. }
  run_calls.
  match goal with
  | |- context [omap id ?es] => destruct (omap id es) as [|failure failures]
  end; cbn beta iota;
  match goal with
  | |- context [Complete ?b ?m] => destruct (Complete b m) as [[e|] m9]
  end; cbn beta iota.
  - split; [discriminate|by intros (_ & _ & ?)].
  - done.
  - split; [discriminate|by intros (_ & ? & _)].
  - split; [discriminate|by intros (_ & ? & _)].
Qed.

(** X12.  No two of the six relations share an index name. *)
Theorem index_names_distinct :
  NoDup (indexName <$> portRelations finalizer externalObjectFieldOwner).
Proof. unfold portRelations. simpl. compute_done. Qed.

(** X13.  The builder watches each of the six relations once, in the order
    they are declared, on the kind the relation targets: every watch pairs
    a kind with the handler of a relation whose Target is that kind; and the
    controller itself is for ports. *)
Theorem watches_match_relations (h1 h2 h3 h4 h5 h6 : EventHandler) :
  WatchEventHandler networkDependency = inr h1 →
  WatchEventHandler networkImportDependency = inr h2 →
  WatchEventHandler subnetDependency = inr h3 →
  WatchEventHandler securityGroupDependency = inr h4 →
  WatchEventHandler projectDependency = inr h5 →
  WatchEventHandler projectImportDependency = inr h6 →
  (λ w, handlerRelation (watchHandler w))
    <$> watches (portBuilder h1 h2 h3 h4 h5 h6) = relations ∧
  (∀ w, w ∈ watches (portBuilder h1 h2 h3 h4 h5 h6) →
     targetKind (handlerRelation (watchHandler w)) = watchObject w) ∧
  forObject (portBuilder h1 h2 h3 h4 h5 h6) = Some PortKind.
Proof.
  unfold port.WatchEventHandler.
  destruct (handlerError networkDependency); [done|intros [= <-]].
  destruct (handlerError networkImportDependency); [done|intros [= <-]].
  destruct (handlerError subnetDependency); [done|intros [= <-]].
  destruct (handlerError securityGroupDependency); [done|intros [= <-]].
  destruct (handlerError projectDependency); [done|intros [= <-]].
  destruct (handlerError projectImportDependency); [done|intros [= <-]].
  split; [reflexivity|]. split; [|reflexivity].
  intros w Hw. simpl in Hw.
  repeat (apply elem_of_cons in Hw as [->|Hw]); [reflexivity..|].
  by apply elem_of_nil in Hw.
Qed.

(** X14.  When each relation yields no reference.  The network relation:
    only without a resource spec.  The subnet and security-group relations:
    without a resource spec or with an empty list.  The project relation:
    without a resource spec or without a project reference.  The network
    import relation: only without an import filter, even when the filter
    names no network.  The project import relation: without an import
    filter or without a project reference in it. *)
Theorem extractors_empty_iff (port : Port) :
  (getDependencyRefs networkDependency port = [] ↔ Resource (Spec port) = None) ∧
  (getDependencyRefs subnetDependency port = [] ↔
     ∀ resource, Resource (Spec port) = Some resource → Addresses resource = []) ∧
  (getDependencyRefs securityGroupDependency port = [] ↔
     ∀ resource, Resource (Spec port) = Some resource →
                 SecurityGroupRefs resource = []) ∧
  (getDependencyRefs projectDependency port = [] ↔
     ∀ resource, Resource (Spec port) = Some resource → ProjectRef resource = None) ∧
  (getDependencyRefs networkImportDependency port = [] ↔
     ∀ import, Import (Spec port) = Some import → Filter import = None) ∧
  (getDependencyRefs projectImportDependency port = [] ↔
     ∀ import filter, Import (Spec port) = Some import →
                      Filter import = Some filter → FilterProjectRef filter = None).
Proof.
  destruct port as [ns name [import resource]]; simpl.
  repeat split.
  - by destruct resource.
  - by intros ->.
  - destruct resource as [r|]; [|done]. rewrite fillRefs_fmap.
    intros H%fmap_nil_inv r' [= <-]. done.
  - destruct resource as [r|]; [|done]. rewrite fillRefs_fmap.
    intros H. by rewrite (H r eq_refl).
  - destruct resource as [r|]; [|done]. rewrite fillRefs_fmap.
    intros H%fmap_nil_inv r' [= <-]. done.
  - destruct resource as [r|]; [|done]. rewrite fillRefs_fmap.
    intros H. by rewrite (H r eq_refl).
  - destruct resource as [r|]; [|done].
    destruct (ProjectRef r) eqn:E; [done|]. by intros _ r' [= <-].
  - destruct resource as [r|]; [|done]. intros H. by rewrite (H r eq_refl).
  - destruct import as [i|]; [|done].
    destruct (Filter i) eqn:E; [done|]. by intros _ i' [= <-].
  - destruct import as [i|]; [|done]. intros H. by rewrite (H i eq_refl).
  - destruct import as [i|]; [|done].
    destruct (Filter i) as [f|] eqn:E;
      [|intros _ i' f' [= <-] Hf; congruence].
    destruct (FilterProjectRef f) eqn:E'; [done|].
    intros _ i' f' [= <-] Hf. congruence.
  - destruct import as [i|]; [|done].
    destruct (Filter i) as [f|] eqn:E; [|done].
    intros H. by rewrite (H i f eq_refl E).
Qed.

End SetupMore.

Section SetupMoreRuns.
Import orcv1alpha1 dependency predicates builder.

(** The subnet handler is the third one: the setup returns its error and
    registers nothing, although the two handlers before it were built. *)
Lemma SetupWithManager_stops_at_first_handler_error_witness :
  omap subnetHandlerFails
    (portRelations testenv.finalizer testenv.externalObjectFieldOwner)
    = [errorString "no kind for subnet"] ∧
  port.SetupWithManager testenv.finalizer testenv.externalObjectFieldOwner
    testenv.credentialsDependency testenv.Manager subnetHandlerFails
    testenv.AddToManager testenv.AddCredentialsWatch testenv.Complete []
  = (Some (errorString "no kind for subnet"), []).
Proof.
  split; [reflexivity|].
  apply (SetupWithManager_stops_at_first_handler_error _ _ _ _ _ _ _ _ _ _ []).
  reflexivity.
Defined.

Lemma watches_match_relations_witness :
  (λ w, handlerRelation (watchHandler w)) <$> watches testenv.exampleBuilder
  = portRelations testenv.finalizer testenv.externalObjectFieldOwner.
Proof.
  apply (watches_match_relations testenv.finalizer testenv.externalObjectFieldOwner
           testenv.handlerError _ _ _ _ _ _
           eq_refl eq_refl eq_refl eq_refl eq_refl eq_refl).
Defined.

(** On a fresh manager every step succeeds and the setup ends with the
    result of [Complete]. *)
Lemma SetupWithManager_completes_witness :
  testenv.SetupWithManager [] =
  (None,
   ["spec.resource.networkRef"; "spec.import.filter.networkRef";
    "spec.resource.addresses[].subnetRef"; "spec.resource.securityGroupRefs";
    "spec.resource.projectRef"; "spec.import.filter.projectRef";
    "spec.cloudCredentialsRef.secretName"]).
Proof.
  pose proof (SetupWithManager_completes
                testenv.finalizer testenv.externalObjectFieldOwner
                testenv.credentialsDependency testenv.Manager
                testenv.handlerError testenv.AddToManager
                testenv.AddCredentialsWatch testenv.Complete []
                eq_refl eq_refl eq_refl eq_refl eq_refl eq_refl) as H.
  vm_compute in H. apply H. reflexivity.
Defined.

End SetupMoreRuns.
